(** * Capability handlers of the Trello Power-Up sample (public/js/client.js)

    A shallow embedding of the handlers registered with
    [TrelloPowerUp.initialize] and of the helpers they share
    ([randomBadgeColor], [getBadges], [boardButtonCallback],
    [cardButtonCallback]), followed by the properties the specification
    states about them.

    Conventions of the embedding:
    - a JavaScript string is a [string]: a sequence of bytes holding the
      UTF-8 encoding of the text.  The source only concatenates strings,
      searches an ASCII needle and upper-cases ASCII codes; these operations
      commute with the encoding;
    - an object literal is a record; a property the literal omits is [None];
    - a double in the range the program computes with (finite, nonnegative)
      is a pair of integers [mant * 2 ^ expo];
    - [Math.random], [console.log] and the host's UI actions are effects on
      an explicit [world], which also keeps the options handed to
      [t.popup], with the callbacks of their items. *)

From Stdlib Require Import ZArith List String Ascii Bool Lia DecimalString.
Import ListNotations.

Local Open Scope string_scope.
Local Open Scope Z_scope.

(** ** The JavaScript fragment the client uses *)

Module JS.

(** Values that can sit in a property the source reads or writes as
    "string, null or missing". *)
Inductive value : Type :=
| Undefined
| Null
| Str (s : string).

(** [ToString], as applied by [+] to the right operand of a string. *)
Definition to_string (v : value) : string :=
  match v with
  | Undefined => "undefined"
  | Null => "null"
  | Str s => s
  end.

(** [s.indexOf(searchString)]: the smallest position at which
    [searchString] occurs in [s], or -1. *)
Fixpoint indexOf_from (s searchString : string) (position : Z) : Z :=
  if String.prefix searchString s then position
  else match s with
       | EmptyString => -1
       | String _ rest => indexOf_from rest searchString (position + 1)
       end.

Definition indexOf (s searchString : string) : Z :=
  indexOf_from s searchString 0.

(** [s.toUpperCase()] on the ASCII letters; other bytes are kept (exact
    for the ASCII park codes the client upper-cases). *)
Definition upper_ascii (c : ascii) : ascii :=
  let n := nat_of_ascii c in
  if (97 <=? n)%nat && (n <=? 122)%nat then ascii_of_nat (n - 32) else c.

Fixpoint toUpperCase (s : string) : string :=
  match s with
  | EmptyString => EmptyString
  | String c rest => String (upper_ascii c) (toUpperCase rest)
  end.

(** [array[i]] for an array of strings: [undefined] out of range. *)
Definition array_get (a : list string) (i : Z) : value :=
  if i <? 0 then Undefined
  else match nth_error a (Z.to_nat i) with
       | Some s => Str s
       | None => Undefined
       end.

(** *** Doubles *)

(** The finite nonnegative double [mant * 2 ^ expo]. *)
Record double : Type := { mant : Z; expo : Z }.

(** A double of the half-open interval [0, 1): what [Math.random] returns. *)
Definition unit_interval (x : double) : Prop :=
  0 <= mant x < 2 ^ 53 /\ -1074 <= expo x <= 0 /\ mant x < 2 ^ (- expo x).

(** [p / 2 ^ s] rounded to the nearest integer, ties to even. *)
Definition round_nearest_even (p s : Z) : Z :=
  let q := Z.shiftr p s in
  let r := p - Z.shiftl q s in
  let half := Z.shiftl 1 (s - 1) in
  if r <? half then q
  else if half <? r then q + 1
  else if Z.even q then q else q + 1.

(** The double nearest to [p * 2 ^ e] (53 significant bits, no overflow
    and no underflow in the range of use). *)
Definition round53 (p e : Z) : double :=
  let bits := Z.log2 p + 1 in
  if bits <=? 53 then {| mant := p; expo := e |}
  else {| mant := round_nearest_even p (bits - 53); expo := e + (bits - 53) |}.

(** [x * k] for a double [x] and a positive integer literal [k]. *)
Definition mul (x : double) (k : Z) : double :=
  round53 (mant x * k) (expo x).

(** [Math.floor(x)], an integer. *)
Definition Math_floor (x : double) : Z :=
  Z.shiftl (mant x) (expo x).

Definition string_of_Z (n : Z) : string :=
  NilZero.string_of_uint (N.to_uint (Z.to_N n)).

(** [x.toFixed(0)]: the nearest integer, the larger one on a tie, in
    decimal. *)
Definition nearest_integer (x : double) : Z :=
  if 0 <=? expo x then Z.shiftl (mant x) (expo x)
  else Z.shiftr (2 * mant x + 2 ^ (- expo x)) (1 - expo x).

Definition toFixed0 (x : double) : string :=
  string_of_Z (nearest_integer x).

(** *** The random source *)

(** The sequence of doubles [Math.random] will return, and how many of
    them were taken so far. *)
Record rng : Type := { draws : nat -> double; taken : nat }.

Definition next_double (g : rng) : double * rng :=
  (draws g (taken g), {| draws := draws g; taken := S (taken g) |}).

(** *** Promises *)

Inductive settled (A : Type) : Type :=
| Pending
| Fulfilled (v : A)
| Rejected (reason : string).
Arguments Pending {A}.
Arguments Fulfilled {A} v.
Arguments Rejected {A} reason.

(** A promise object: its state and how often its [resolve] function was
    called. *)
Record promise (A : Type) : Type :=
  { state : settled A; resolve_calls : nat }.
Arguments state {A} p.
Arguments resolve_calls {A} p.

(** The [resolve] function handed to an executor: it settles a pending
    promise and leaves a settled one as it is. *)
Definition resolve_function {A : Type} (v : A) (p : promise A) : promise A :=
  {| state := match state p with
              | Pending => Fulfilled v
              | st => st
              end;
     resolve_calls := S (resolve_calls p) |}.

(** [new Promise(executor)]: the executor runs at once on a pending
    promise. *)
Definition new_Promise {A : Type}
    (executor : (A -> promise A -> promise A) -> promise A -> promise A)
    : promise A :=
  executor resolve_function {| state := Pending; resolve_calls := 0 |}.

End JS.

Import JS.

(** ** The host: context handle, UI actions, asynchronous results *)

Module Host.

(** What the host is shown of a popup request: the options without the
    callbacks of the items. *)
Record popup_view : Type :=
  { view_title : string;
    view_url : option string;
    view_height : option Z;
    view_items : option (list (string * option string));
    view_search : option (Z * string * string) }.

(** The requests the client makes, in the order it makes them. *)
Inductive action : Type :=
| ReadCard (fields : list string)
| ConsoleLog (message : string)
| OpenPopup (view : popup_view)
| OpenOverlay (url : string) (args : list (string * string))
| OpenBoardBar (url : string) (height : Z)
| ClosePopup
| Attach (url name : string).

(** The world a piece of client code runs in: the requests made so far, the
    random source, and the options handed to [t.popup] so far, callbacks
    included.  [H] is the type of these options. *)
Record world_of (H : Type) : Type :=
  { trace : list action; random : rng; handed : list H }.
Arguments trace {H} w.
Arguments random {H} w.
Arguments handed {H} w.

(** Code that runs to completion, and code that returns a promise: the
    promise is observed by how it settles. *)
Definition computation (H A : Type) : Type := world_of H -> A * world_of H.
Definition promised (H A : Type) : Type :=
  world_of H -> settled A * world_of H.

Definition sync_ret {H A : Type} (a : A) : computation H A := fun w => (a, w).

Definition sync_bind {H A B : Type} (m : computation H A)
    (k : A -> computation H B) : computation H B :=
  fun w => let (a, w') := m w in k a w'.

Definition resolved {H A : Type} (a : A) : promised H A :=
  fun w => (Fulfilled a, w).

(** [p.then(k)]: [k] runs once [p] is fulfilled, and only then. *)
Definition and_then {H A B : Type} (p : promised H A)
    (k : A -> promised H B) : promised H B :=
  fun w =>
    match p w with
    | (Fulfilled a, w') => k a w'
    | (Pending, w') => (Pending, w')
    | (Rejected reason, w') => (Rejected reason, w')
    end.

Definition record {H : Type} (a : action) (w : world_of H) : world_of H :=
  {| trace := (trace w ++ [a])%list; random := random w; handed := handed w |}.

(** A synchronous step, then the promise that is built from its result. *)
Definition after {H A B : Type} (m : computation H A)
    (k : A -> promised H B) : promised H B :=
  fun w => let (a, w') := m w in k a w'.

(** [Math.random()] *)
Definition Math_random {H : Type} : computation H double :=
  fun w => let (x, g) := next_double (random w) in
           (x, {| trace := trace w; random := g; handed := handed w |}).

(** [console.log(message)] *)
Definition console_log {H : Type} (message : string) : promised H unit :=
  fun w => (Fulfilled tt, record (ConsoleLog message) w).

(** The context handle [t]: how the host answers.  A UI request is settled
    by the host from the requests made before it; [signUrl] is
    synchronous. *)
Record context : Type :=
  { host_card : list action -> settled (string -> value);
    host_ui : list action -> action -> settled unit;
    host_signUrl : string -> list (string * string) -> string }.

Definition request {H : Type} (t : context) (a : action) : promised H unit :=
  fun w => (host_ui t (trace w) a, record a w).

(** [t.overlay({url, args})] *)
Definition overlay {H : Type} (t : context) (url : string)
    (args : list (string * string)) : promised H unit :=
  request t (OpenOverlay url args).

(** [t.boardBar({url, height})] *)
Definition boardBar {H : Type} (t : context) (url : string) (height : Z)
    : promised H unit :=
  request t (OpenBoardBar url height).

(** [t.closePopup()] *)
Definition closePopup {H : Type} (t : context) : promised H unit :=
  request t ClosePopup.

(** [t.attach({url, name})] *)
Definition attach {H : Type} (t : context) (url name : string)
    : promised H unit :=
  request t (Attach url name).

(** [t.card(fields...)]: a promise of an object with the requested
    fields. *)
Definition card {H : Type} (t : context) (fields : list string)
    : promised H (string -> value) :=
  fun w =>
    (match host_card t (trace w) with
     | Fulfilled data =>
         Fulfilled (fun f => if existsb (String.eqb f) fields then data f
                             else Undefined)
     | Pending => Pending
     | Rejected reason => Rejected reason
     end,
     record (ReadCard fields) w).

(** Bluebird's [promise.get(property)] *)
Definition get {H A : Type} (property : string)
    (p : promised H (string -> A)) : promised H A :=
  and_then p (fun object => resolved (object property)).

(** [t.signUrl(url, args)] *)
Definition signUrl (t : context) (url : string) (args : list (string * string))
    : string :=
  host_signUrl t url args.

(** The callback of a popup item: the callbacks of this client make UI
    requests and open no popup of their own, so the world they run in holds
    no handed-over options. *)
Definition item_world : Type := world_of Empty_set.
Definition item_async (A : Type) : Type := promised Empty_set A.

Module Search.
Record t : Type := { count : Z; placeholder : string; empty : string }.
End Search.

Module PopupItem.
Record t : Type :=
  { text : string;
    url : option string;
    callback : context -> item_async unit }.
End PopupItem.

Module Popup.
Record t : Type :=
  { title : string;
    url : option string;
    height : option Z;
    items : option (list PopupItem.t);
    search : option Search.t }.

Definition view (o : t) : popup_view :=
  {| view_title := title o;
     view_url := url o;
     view_height := height o;
     view_items :=
       option_map (map (fun i => (PopupItem.text i, PopupItem.url i)))
                  (items o);
     view_search :=
       option_map (fun s => (Search.count s, Search.placeholder s,
                             Search.empty s))
                  (search o) |}.
End Popup.

(** The world of the handlers and of the callbacks of buttons and badges:
    it keeps the options they hand to [t.popup]. *)
Definition world : Type := world_of Popup.t.
Definition sync (A : Type) : Type := computation Popup.t A.
Definition async (A : Type) : Type := promised Popup.t A.

(** [t.popup(options)]: the host is asked to open the popup it is shown, and
    keeps the options, with the callbacks it will run when an item is
    selected. *)
Definition popup (t : context) (options : Popup.t) : async unit :=
  fun w =>
    (host_ui t (trace w) (OpenPopup (Popup.view options)),
     {| trace := (trace w ++ [OpenPopup (Popup.view options)])%list;
        random := random w;
        handed := (handed w ++ [options])%list |}).

End Host.

Import Host.

Notation "p >>= k" := (and_then p k) (at level 50, left associativity).
Notation "x <- m ;; k" := (sync_bind m (fun x => k))
  (at level 61, m at next level, right associativity).

(** ** The objects the handlers receive and return *)

Module Attachment.
Record t : Type := { url : string; name : option string }.
End Attachment.

Module EntriesOptions.
Record t : Type := { entries : list Attachment.t }.
End EntriesOptions.

Module UrlOptions.
Record t : Type := { url : string }.
End UrlOptions.

Module Content.
Record t : Type := { type : string; url : string; height : Z }.
End Content.

Module Section.
Record t : Type :=
  { id : string;
    claimed : list Attachment.t;
    icon : string;
    title : string;
    content : Content.t }.
End Section.

Module Image.
Record t : Type := { url : string; logo : bool }.
End Image.

Module Thumbnail.
Record t : Type :=
  { url : string; title : string; image : Image.t; openText : string }.
End Thumbnail.

Module AuthStatus.
Record t : Type := { authorized : bool }.
End AuthStatus.

Module Button.
Record t : Type :=
  { icon : string;
    text : string;
    callback : option (context -> async unit);
    url : option string;
    target : option string }.
End Button.

Module Badge.
(* A badge object; the object [dynamic] returns is a badge again. *)
#[local] Unset Elimination Schemes.
Inductive t : Type :=
  Build
    { dynamic : option (sync t);
      title : option string;
      text : option string;
      icon : option string;
      color : option value;
      refresh : option Z;
      callback : option (context -> async unit);
      url : option string;
      target : option string }.
#[local] Set Elimination Schemes.
End Badge.

Module CardStub.
Record t : Type := { name : string; desc : string }.
End CardStub.

Module FormattedUrl.
Record t : Type := { icon : string; text : string }.
End FormattedUrl.

(** How a handler call ends: with a returned value, or with a thrown one.
    A thrown [t.NotHandled()] tells the host that the Power-Up declines. *)
Inductive exception : Type :=
| NotHandled
| Error (message : string).

Inductive completion (A : Type) : Type :=
| Return (v : A)
| Throw (e : exception).
Arguments Return {A} v.
Arguments Throw {A} e.

(** ** public/js/client.js *)

Module Client.

Definition HYPERDEV_ICON : string :=
  "https://cdn.hyperdev.com/us-east-1%3A3d31b21c-01a0-4da2-8827-4bc6e88b7618%2Fhyperdev.svg".
Definition GRAY_ICON : string :=
  "https://cdn.hyperdev.com/us-east-1%3A3d31b21c-01a0-4da2-8827-4bc6e88b7618%2Ficon-gray.svg".
Definition WHITE_ICON : string :=
  "https://cdn.hyperdev.com/us-east-1%3A3d31b21c-01a0-4da2-8827-4bc6e88b7618%2Ficon-white.svg".

Definition randomBadgeColor : sync value :=
  r <- Math_random ;;
  sync_ret (array_get ["green"; "yellow"; "red"; "none"]
                      (Math_floor (mul r 4))).

Definition getBadges (t : context) : async (list Badge.t) :=
  get "name" (card t ["name"])
  >>= fun cardName =>
    console_log ("We just loaded the card name for fun: " ++ to_string cardName)
    >>= fun _ =>
    resolved
      [ {| Badge.dynamic := Some (
             r <- Math_random ;;
             c <- randomBadgeColor ;;
             sync_ret
               {| Badge.dynamic := None;
                  Badge.title := Some "Detail Badge";
                  Badge.text := Some ("Dynamic " ++ toFixed0 (mul r 100));
                  Badge.icon := Some HYPERDEV_ICON;
                  Badge.color := Some c;
                  Badge.refresh := Some 10;
                  Badge.callback := None;
                  Badge.url := None;
                  Badge.target := None |});
           Badge.title := None;
           Badge.text := None;
           Badge.icon := None;
           Badge.color := None;
           Badge.refresh := None;
           Badge.callback := None;
           Badge.url := None;
           Badge.target := None |};
        {| Badge.dynamic := None;
           Badge.title := Some "Detail Badge";
           Badge.text := Some "Static";
           Badge.icon := Some HYPERDEV_ICON;
           Badge.color := Some Null;
           Badge.refresh := None;
           Badge.callback := None;
           Badge.url := None;
           Badge.target := None |};
        {| Badge.dynamic := None;
           Badge.title := Some "Popup Detail Badge";
           Badge.text := Some "Popup";
           Badge.icon := Some HYPERDEV_ICON;
           Badge.color := None;
           Badge.refresh := None;
           Badge.callback := Some (fun context =>
             popup context
               {| Popup.title := "Card Detail Badge Popup";
                  Popup.url := Some "./settings.html";
                  Popup.height := Some 184;
                  Popup.items := None;
                  Popup.search := None |});
           Badge.url := None;
           Badge.target := None |};
        {| Badge.dynamic := None;
           Badge.title := Some "URL Detail Badge";
           Badge.text := Some "URL";
           Badge.icon := Some HYPERDEV_ICON;
           Badge.color := None;
           Badge.refresh := None;
           Badge.callback := None;
           Badge.url := Some "https://trello.com/home";
           Badge.target := Some "Trello Landing Page" |} ].

Definition boardButtonCallback (t : context) : async unit :=
  popup t
    {| Popup.title := "Popup List Example";
       Popup.url := None;
       Popup.height := None;
       Popup.items := Some
         [ {| PopupItem.text := "Open Overlay";
              PopupItem.url := None;
              PopupItem.callback := fun t =>
                after Math_random (fun r =>
                  overlay t "./overlay.html" [("rand", toFixed0 (mul r 100))]
                  >>= fun _ => closePopup t) |};
           {| PopupItem.text := "Open Board Bar";
              PopupItem.url := None;
              PopupItem.callback := fun t =>
                boardBar t "./board-bar.html" 200
                >>= fun _ => closePopup t |} ];
       Popup.search := None |}.

(** The park codes [cardButtonCallback] maps over, and the item it builds
    for each. *)
Definition parkCodes : list string :=
  ["acad"; "arch"; "badl"; "crla"; "grca"; "yell"; "yose"].

Definition parkItem (parkCode : string) : PopupItem.t :=
  let urlForCode := "http://www.nps.gov/" ++ parkCode ++ "/" in
  let nameForCode := "🏞 " ++ toUpperCase parkCode in
  {| PopupItem.text := nameForCode;
     PopupItem.url := Some urlForCode;
     PopupItem.callback := fun t =>
       attach t urlForCode nameForCode
       >>= fun _ => closePopup t |}.

Definition cardButtonOptions : Popup.t :=
  let items := map parkItem parkCodes in
  {| Popup.title := "Popup Search Example";
     Popup.url := None;
     Popup.height := None;
     Popup.items := Some items;
     Popup.search := Some
       {| Search.count := 5;
          Search.placeholder := "Search National Parks";
          Search.empty := "No parks found" |} |}.

Definition cardButtonCallback (t : context) : async unit :=
  popup t cardButtonOptions.

(** *** The handlers given to [TrelloPowerUp.initialize] *)

Definition attachment_sections (t : context) (options : EntriesOptions.t)
    : list Section.t :=
  let claimed :=
    filter (fun attachment =>
              indexOf (Attachment.url attachment) "http://www.nps.gov/yell/"
              =? 0)
           (EntriesOptions.entries options) in
  (* an array is truthy, so the test is the one on its length *)
  if 0 <? Z.of_nat (List.length claimed) then
    [ {| Section.id := "Yellowstone";
         Section.claimed := claimed;
         Section.icon := HYPERDEV_ICON;
         Section.title := "Example Attachment Section: Yellowstone";
         Section.content :=
           {| Content.type := "iframe";
              Content.url :=
                signUrl t "./section.html"
                        [("arg", "you can pass your section args here")];
              Content.height := 230 |} |} ]
  else [].

Definition attachment_thumbnail (t : context) (options : UrlOptions.t)
    : completion Thumbnail.t :=
  Return
    {| Thumbnail.url := UrlOptions.url options;
       Thumbnail.title := "👉 " ++ UrlOptions.url options ++ " 👈";
       Thumbnail.image := {| Image.url := HYPERDEV_ICON; Image.logo := true |};
       Thumbnail.openText := "Open Sesame" |}.

Definition authorization_status {O : Type} (t : context) (options : O)
    : promise AuthStatus.t :=
  new_Promise (fun resolve => resolve {| AuthStatus.authorized := true |}).

Definition board_buttons {O : Type} (t : context) (options : O)
    : list Button.t :=
  [ {| Button.icon := WHITE_ICON;
       Button.text := "Popup";
       Button.callback := Some boardButtonCallback;
       Button.url := None;
       Button.target := None |};
    {| Button.icon := WHITE_ICON;
       Button.text := "URL";
       Button.callback := None;
       Button.url := Some "https://trello.com/inspiration";
       Button.target := Some "Inspiring Boards" |} ].

Definition card_badges {O : Type} (t : context) (options : O)
    : async (list Badge.t) :=
  getBadges t.

Definition card_buttons {O : Type} (t : context) (options : O)
    : list Button.t :=
  [ {| Button.icon := GRAY_ICON;
       Button.text := "Open Popup";
       Button.callback := Some cardButtonCallback;
       Button.url := None;
       Button.target := None |};
    {| Button.icon := GRAY_ICON;
       Button.text := "Just a URL";
       Button.callback := None;
       Button.url := Some "https://developers.trello.com";
       Button.target := Some "Trello Developer Site" |} ].

Definition card_detail_badges {O : Type} (t : context) (options : O)
    : async (list Badge.t) :=
  getBadges t.

Definition card_from_url (t : context) (options : UrlOptions.t)
    : completion (promise CardStub.t) :=
  Return
    (new_Promise (fun resolve =>
       resolve
         {| CardStub.name := "💻 " ++ UrlOptions.url options ++ " 🤔";
            CardStub.desc :=
              "This Power-Up knows cool things about the attached url" |})).

Definition format_url (t : context) (options : UrlOptions.t)
    : completion FormattedUrl.t :=
  Return
    {| FormattedUrl.icon := GRAY_ICON;
       FormattedUrl.text := "👉 " ++ UrlOptions.url options ++ " 👈" |}.

Definition show_authorization {O : Type} (t : context) (options : O)
    : async unit :=
  popup t
    {| Popup.title := "My Auth Popup";
       Popup.url := Some "./authorize.html";
       Popup.height := Some 140;
       Popup.items := None;
       Popup.search := None |}.

Definition show_settings {O : Type} (t : context) (options : O)
    : async unit :=
  popup t
    {| Popup.title := "Settings";
       Popup.url := Some "./settings.html";
       Popup.height := Some 184;
       Popup.items := None;
       Popup.search := None |}.

End Client.

Import Client.

(** ** The vocabulary of the specification *)

(** [s] begins with [p]. *)
Definition begins_with (p s : string) : Prop :=
  exists rest, s = p ++ rest.

(** The two outcomes of a declinable handler: it answered with a
    descriptor, or it declined ("not handled"). *)
Definition answered {A : Type} (c : completion A) : Prop :=
  exists d, c = Return d.

Definition declined {A : Type} (c : completion A) : Prop :=
  c = Throw NotHandled.

Definition exactly_one (P Q : Prop) : Prop :=
  (P /\ ~ Q) \/ (~ P /\ Q).

(** The enumerated colors of a badge. *)
Definition badge_colors : list string := ["green"; "yellow"; "red"; "none"].

(** [Math.random] only returns doubles of [0, 1). *)
Definition fair (g : rng) : Prop :=
  forall n, unit_interval (draws g n).

(** The two variants of a button. *)
Definition callback_button (b : Button.t) : Prop :=
  Button.callback b <> None /\ Button.url b = None /\ Button.target b = None.

Definition link_button (b : Button.t) : Prop :=
  Button.callback b = None /\ Button.url b <> None.

(** A button is of one variant, and has a callback or a URL, not both. *)
Definition valid_button (b : Button.t) : Prop :=
  exactly_one (callback_button b) (link_button b)
  /\ exactly_one (Button.callback b <> None) (Button.url b <> None).

(** The variants of a badge. *)
Definition dynamic_badge (b : Badge.t) : Prop :=
  Badge.dynamic b <> None /\ Badge.callback b = None /\ Badge.url b = None.

Definition static_badge (b : Badge.t) : Prop :=
  Badge.dynamic b = None /\ Badge.callback b = None /\ Badge.url b = None
  /\ Badge.text b <> None.

Definition callback_badge (b : Badge.t) : Prop :=
  Badge.dynamic b = None /\ Badge.callback b <> None /\ Badge.url b = None.

Definition link_badge (b : Badge.t) : Prop :=
  Badge.dynamic b = None /\ Badge.callback b = None
  /\ Badge.url b <> None /\ Badge.target b <> None.

(** The requests a computation added to the trace of [w]. *)
Definition requests_of {H A : Type} (m : world_of H -> A * world_of H)
    (w : world_of H) (added : list action) : Prop :=
  trace (snd (m w)) = (trace w ++ added)%list.

(** A host and a world to run the handlers in. *)
Definition demo_context : context :=
  {| host_card := fun _ => Fulfilled (fun _ => Str "Plan the trip");
     host_ui := fun _ _ => Fulfilled tt;
     host_signUrl := fun url _ => url |}.

(** The same host with another name on the card. *)
Definition renamed_context : context :=
  {| host_card := fun _ => Fulfilled (fun _ => Str "Book the flights");
     host_ui := host_ui demo_context;
     host_signUrl := host_signUrl demo_context |}.

Definition demo_world : world :=
  {| trace := [];
     random := {| draws := fun _ => {| mant := 3; expo := -2 |};
                  taken := 0 |};
     handed := [] |}.

Definition yell1 : Attachment.t :=
  {| Attachment.url := "http://www.nps.gov/yell/1"; Attachment.name := None |}.

Definition acad2 : Attachment.t :=
  {| Attachment.url := "http://www.nps.gov/acad/2"; Attachment.name := None |}.

(** ** Further vocabulary: draws, settled requests, handed-over options *)

(** The computation took [n] doubles from the random source, the next [n]
    of the sequence. *)
Definition draws_taken {H A : Type} (m : world_of H -> A * world_of H)
    (w : world_of H) (n : nat) : Prop :=
  random (snd (m w)) =
  {| draws := draws (random w); taken := (taken (random w) + n)%nat |}.

(** The computation made the one request [a] and its promise settles as the
    host settles that request. *)
Definition only_requests (m : async unit) (t : context) (w : world)
    (a : action) : Prop :=
  requests_of m w [a] /\ fst (m w) = host_ui t (trace w) a.

(** The computation made the request [a] and, once the host fulfilled it and
    not otherwise, asked to close the popup; its promise settles as the last
    request made. *)
Definition then_closes {H : Type} (m : promised H unit) (t : context)
    (w : world_of H) (a : action) : Prop :=
  match host_ui t (trace w) a with
  | Fulfilled _ =>
      requests_of m w [a; ClosePopup]
      /\ fst (m w) = host_ui t (trace w ++ [a])%list ClosePopup
  | Pending => requests_of m w [a] /\ fst (m w) = Pending
  | Rejected reason => requests_of m w [a] /\ fst (m w) = Rejected reason
  end.

(** A host that rejects whatever it is asked. *)
Definition refusing_context : context :=
  {| host_card := fun _ => Rejected "card unavailable";
     host_ui := fun _ _ => Rejected "request refused";
     host_signUrl := fun url _ => url |}.

(** The computation handed [options], and nothing else, to [t.popup]. *)
Definition hands_over (m : async unit) (w : world) (options : Popup.t)
    : Prop :=
  handed (snd (m w)) = (handed w ++ [options])%list.

(** Codes of ASCII characters, on which [toUpperCase] only changes the
    letters a to z; and codes of these letters only, as the park codes. *)
Fixpoint ascii_only (s : string) : bool :=
  match s with
  | EmptyString => true
  | String c rest => (nat_of_ascii c <? 128)%nat && ascii_only rest
  end.

Fixpoint lowercase_only (s : string) : bool :=
  match s with
  | EmptyString => true
  | String c rest =>
      (97 <=? nat_of_ascii c)%nat && (nat_of_ascii c <=? 122)%nat
      && lowercase_only rest
  end.

(** A world for the callback of a popup item. *)
Definition demo_item_world : item_world :=
  {| trace := []; random := random demo_world; handed := [] |}.

Definition yell2 : Attachment.t :=
  {| Attachment.url := "http://www.nps.gov/yell/2";
     Attachment.name := Some "Old Faithful" |}.

(** ** Strings *)

Section Strings.

Lemma prefix_begins_with (p s : string) :
  String.prefix p s = true <-> begins_with p s.
Proof.
  unfold begins_with. revert s.
  induction p as [| c p IH]; intros s.
  - destruct s; simpl; split; intros _; eauto.
  - destruct s as [| d s]; simpl.
    + split; [discriminate | intros [rest H]; discriminate].
    + destruct (Ascii.ascii_dec c d) as [-> | Hne].
      * rewrite IH. split; intros [rest H]; exists rest.
        -- now rewrite H.
        -- now inversion H.
      * split; [discriminate |].
        intros [rest H]. inversion H. congruence.
Qed.

Lemma indexOf_from_range (s needle : string) (k : Z) :
  indexOf_from s needle k = -1 \/ k <= indexOf_from s needle k.
Proof.
  revert k. induction s as [| c s IH]; intros k; cbn [indexOf_from].
  - destruct (String.prefix needle ""); [right; lia | now left].
  - destruct (String.prefix needle (String c s)); [right; lia |].
    destruct (IH (k + 1)) as [H | H]; [now left | right; lia].
Qed.

(** [s.indexOf(p) === 0] is the test "[s] begins with [p]". *)
Lemma indexOf_zero (s p : string) :
  (indexOf s p =? 0) = true <-> begins_with p s.
Proof.
  rewrite <- prefix_begins_with, Z.eqb_eq. unfold indexOf.
  destruct s as [| c s]; cbn [indexOf_from].
  - destruct (String.prefix p ""); [tauto | split; discriminate].
  - destruct (String.prefix p (String c s)); [tauto |].
    split; [| discriminate].
    destruct (indexOf_from_range s p (0 + 1)); lia.
Qed.

End Strings.

(** ** attachment-sections *)

Section AttachmentSections.

Variable t : context.
Variable options : EntriesOptions.t.

(** Every returned section holds the entries that pass the test of the
    filter, in the order of the entries. *)
Lemma section_claimed (s : Section.t) :
  In s (attachment_sections t options) ->
  Section.claimed s =
  filter (fun a => indexOf (Attachment.url a) "http://www.nps.gov/yell/" =? 0)
         (EntriesOptions.entries options).
Proof.
  unfold attachment_sections.
  destruct (0 <? Z.of_nat (List.length _)); simpl; [| tauto].
  intros [<- | []]. reflexivity.
Qed.

Lemma claimed_begins_with (s : Section.t) (a : Attachment.t) :
  In s (attachment_sections t options) ->
  In a (Section.claimed s) ->
  In a (EntriesOptions.entries options)
  /\ begins_with "http://www.nps.gov/yell/" (Attachment.url a).
Proof.
  intros Hs Ha. rewrite (section_claimed s Hs) in Ha.
  apply filter_In in Ha. destruct Ha as [Hin Htest].
  split; [assumption | now apply indexOf_zero].
Qed.

Lemma no_match_no_section :
  (forall a, In a (EntriesOptions.entries options) ->
             ~ begins_with "http://www.nps.gov/yell/" (Attachment.url a)) ->
  attachment_sections t options = [].
Proof.
  intros Hnone. unfold attachment_sections.
  destruct (filter _ (EntriesOptions.entries options)) as [| a l] eqn:E.
  - reflexivity.
  - exfalso.
    assert (Ha : In a (filter
              (fun a => indexOf (Attachment.url a) "http://www.nps.gov/yell/"
                        =? 0)
              (EntriesOptions.entries options)))
      by (rewrite E; now left).
    apply filter_In in Ha. destruct Ha as [Hin Htest].
    apply (Hnone a Hin). now apply indexOf_zero.
Qed.

End AttachmentSections.

(** C1: whatever the entries, every attachment claimed by a returned section
    is one of the entries and its URL begins with
    'http://www.nps.gov/yell/'; an attachment whose URL does not begin with
    it is claimed by no returned section; when no entry matches the result
    is the empty sequence; and for the entries [yell1; acad2] the result is
    one section that claims exactly [yell1]. *)
Theorem attachment_sections_claims_yellowstone :
  forall (t : context) (options : EntriesOptions.t),
    (forall s a,
        In s (attachment_sections t options) ->
        In a (Section.claimed s) ->
        In a (EntriesOptions.entries options)
        /\ begins_with "http://www.nps.gov/yell/" (Attachment.url a))
    /\ (forall a,
           ~ begins_with "http://www.nps.gov/yell/" (Attachment.url a) ->
           forall s, In s (attachment_sections t options) ->
                     ~ In a (Section.claimed s))
    /\ ((forall a, In a (EntriesOptions.entries options) ->
                   ~ begins_with "http://www.nps.gov/yell/" (Attachment.url a)) ->
        attachment_sections t options = [])
    /\ (exists s,
           attachment_sections t {| EntriesOptions.entries := [yell1; acad2] |}
           = [s]
           /\ Section.claimed s = [yell1]).
Proof.
  intros t options. split; [| split; [| split]].
  - intros s a. apply claimed_begins_with.
  - intros a Hno s Hs Ha.
    apply Hno. eapply claimed_begins_with; eassumption.
  - apply no_match_no_section.
  - eexists. split; reflexivity.
Qed.

(** ** The declinable handlers: attachment-thumbnail, card-from-url, format-url *)

Section Completions.

Context {A : Type}.

(** A returned descriptor is never the "not handled" signal. *)
Lemma answered_not_declined (c : completion A) :
  answered c -> ~ declined c.
Proof.
  intros [d ->]. unfold declined. discriminate.
Qed.

Lemma returned_exactly_one (d : A) :
  exactly_one (answered (Return d)) (declined (Return d)).
Proof.
  left. split.
  - now exists d.
  - apply answered_not_declined. now exists d.
Qed.

End Completions.

(** C2: for every input, each of attachment-thumbnail, card-from-url and
    format-url ends in exactly one of the two outcomes "descriptor" and
    "not handled" (they answer; the promise card-from-url returns is
    fulfilled with its descriptor); and no completion is both: a returned
    descriptor differs from the thrown "not handled" by its constructor. *)
Theorem declinable_handlers_one_outcome :
  forall (t : context) (options : UrlOptions.t),
    exactly_one (answered (attachment_thumbnail t options))
                (declined (attachment_thumbnail t options))
    /\ exactly_one (answered (card_from_url t options))
                   (declined (card_from_url t options))
    /\ exactly_one (answered (format_url t options))
                   (declined (format_url t options))
    /\ (exists p d, card_from_url t options = Return p
                    /\ state p = Fulfilled d)
    /\ (forall (D : Type) (c : completion D), ~ (answered c /\ declined c))
    /\ (forall (D : Type) (d : D), Return d <> Throw NotHandled).
Proof.
  intros t options.
  split; [apply returned_exactly_one |].
  split; [apply returned_exactly_one |].
  split; [apply returned_exactly_one |].
  split; [do 2 eexists; split; reflexivity |].
  split.
  - intros D c [Ha Hd]. now apply (answered_not_declined c).
  - discriminate.
Qed.

(** C7: for every URL, format-url returns the pair of the gray icon and the
    URL between the two pointing hands; for "https://example.com" the text
    is "👉 https://example.com 👈". *)
Theorem format_url_decorates :
  forall (t : context) (options : UrlOptions.t),
    format_url t options =
    Return {| FormattedUrl.icon := GRAY_ICON;
              FormattedUrl.text := "👉 " ++ UrlOptions.url options ++ " 👈" |}
    /\ format_url t {| UrlOptions.url := "https://example.com" |} =
       Return {| FormattedUrl.icon := GRAY_ICON;
                 FormattedUrl.text := "👉 https://example.com 👈" |}.
Proof.
  intros t options. split; reflexivity.
Qed.

(** C10: for every URL, attachment-thumbnail returns a descriptor whose url
    is the input and whose title is the text format-url returns for the same
    input, '👉 ' + url + ' 👈'; and card-from-url returns a promise that is
    fulfilled, by one call of resolve, with the name '💻 ' + url + ' 🤔' and
    the fixed description. *)
Theorem thumbnail_and_card_stub :
  forall (t : context) (options : UrlOptions.t),
    (exists d f,
        attachment_thumbnail t options = Return d
        /\ format_url t options = Return f
        /\ Thumbnail.url d = UrlOptions.url options
        /\ Thumbnail.title d = "👉 " ++ UrlOptions.url options ++ " 👈"
        /\ Thumbnail.title d = FormattedUrl.text f)
    /\ (exists p,
           card_from_url t options = Return p
           /\ state p =
              Fulfilled
                {| CardStub.name := "💻 " ++ UrlOptions.url options ++ " 🤔";
                   CardStub.desc :=
                     "This Power-Up knows cool things about the attached url" |}
           /\ resolve_calls p = 1%nat).
Proof.
  intros t options. split.
  - do 2 eexists. repeat split; reflexivity.
  - eexists. repeat split; reflexivity.
Qed.

(** ** authorization-status *)

(** C5: authorization-status returns a promise that is fulfilled with
    {authorized: true}, by exactly one call of its resolve function. *)
Theorem authorization_status_resolves_once :
  forall (O : Type) (t : context) (options : O),
    state (authorization_status t options) =
    Fulfilled {| AuthStatus.authorized := true |}
    /\ resolve_calls (authorization_status t options) = 1%nat.
Proof.
  intros O t options. split; reflexivity.
Qed.

(** ** board-buttons and card-buttons *)

Section Buttons.

Variables (icon text : string).

Lemma callback_only_valid (f : context -> async unit) :
  valid_button {| Button.icon := icon; Button.text := text;
                  Button.callback := Some f;
                  Button.url := None; Button.target := None |}.
Proof.
  unfold valid_button, exactly_one, callback_button, link_button; simpl.
  split; left; split; try congruence; try tauto.
  all: try (repeat split; congruence).
  all: try (intros [H _]; discriminate).
Qed.

Lemma url_only_valid (u : string) (target : option string) :
  valid_button {| Button.icon := icon; Button.text := text;
                  Button.callback := None;
                  Button.url := Some u; Button.target := target |}.
Proof.
  unfold valid_button, exactly_one, callback_button, link_button; simpl.
  split; right; split; try congruence; try tauto.
  all: try (split; congruence).
  all: try (intros [H _]; congruence).
Qed.

End Buttons.

(** C4: board-buttons and card-buttons each return two buttons, and each
    button is of exactly one variant: it has a callback or it has a URL,
    never both and never neither. *)
Theorem buttons_two_variants :
  forall (O : Type) (t : context) (options : O),
    List.length (board_buttons t options) = 2%nat
    /\ Forall valid_button (board_buttons t options)
    /\ List.length (card_buttons t options) = 2%nat
    /\ Forall valid_button (card_buttons t options).
Proof.
  intros O t options. unfold board_buttons, card_buttons.
  split; [reflexivity | split; [| split; [reflexivity |]]].
  - repeat apply Forall_cons; try apply Forall_nil.
    + apply callback_only_valid.
    + apply url_only_valid.
  - repeat apply Forall_cons; try apply Forall_nil.
    + apply callback_only_valid.
    + apply url_only_valid.
Qed.

(** ** The random color of the dynamic badge *)

Section Doubles.

(** [Math.floor] of a double below [k]. *)
Lemma floor_below (p e k : Z) :
  0 <= p -> e <= 0 -> p < k * 2 ^ (- e) ->
  0 <= Math_floor {| mant := p; expo := e |} < k.
Proof.
  intros Hp He Hlt. unfold Math_floor; simpl.
  assert (Hshift : Z.shiftl p e = p / 2 ^ (- e)).
  { rewrite <- Z.shiftr_opp_r, Z.shiftr_div_pow2 by lia. reflexivity. }
  rewrite Hshift.
  assert (Hpow : 0 < 2 ^ (- e)) by (apply Z.pow_pos_nonneg; lia).
  split.
  - apply Z.div_pos; lia.
  - apply Z.div_lt_upper_bound; lia.
Qed.

(** Rounding is exact when the bits it drops are zero. *)
Lemma round_nearest_even_exact (q s : Z) :
  1 <= s -> round_nearest_even (q * 2 ^ s) s = q.
Proof.
  intros Hs. unfold round_nearest_even.
  assert (Hpow : 0 < 2 ^ s) by (apply Z.pow_pos_nonneg; lia).
  rewrite Z.shiftr_div_pow2, Z.div_mul by lia.
  rewrite !Z.shiftl_mul_pow2 by lia.
  replace (q * 2 ^ s - q * 2 ^ s) with 0 by lia.
  assert (Hhalf : 0 < 2 ^ (s - 1)) by (apply Z.pow_pos_nonneg; lia).
  destruct (Z.ltb_spec 0 (1 * 2 ^ (s - 1))); [reflexivity | lia].
Qed.

(** [r * 4] is computed without rounding error: the product is a double
    [p * 2 ^ e] below 4. *)
Lemma mul_4_below_4 (r : double) :
  unit_interval r ->
  exists p e,
    mul r 4 = {| mant := p; expo := e |}
    /\ 0 <= p /\ e <= 0 /\ p < 4 * 2 ^ (- e).
Proof.
  destruct r as [m e]. unfold unit_interval, mul, round53; cbn [mant expo].
  intros [[Hm0 Hm53] [[He0 He1] Hlt]].
  destruct (Z.leb_spec (Z.log2 (m * 4) + 1) 53) as [Hbits | Hbits].
  - exists (m * 4), e. repeat split; lia.
  - assert (Hpos : 0 < m * 4).
    { destruct (Z.eq_dec m 0) as [-> | ]; [simpl in Hbits |]; lia. }
    assert (Hhi : Z.log2 (m * 4) < 55).
    { apply Z.log2_lt_pow2; [lia |]. change (2 ^ 55) with (2 ^ 53 * 4). lia. }
    assert (Hlo : 2 ^ 53 <= m * 4).
    { transitivity (2 ^ Z.log2 (m * 4)).
      - apply Z.pow_le_mono_r; lia.
      - apply Z.log2_spec. lia. }
    assert (He : e <= -52).
    { assert (H51 : 2 ^ 51 < 2 ^ (- e)).
      { change (2 ^ 53) with (2 ^ 51 * 4) in Hlo. lia. }
      apply Z.pow_lt_mono_r_iff in H51; lia. }
    assert (Hcase : Z.log2 (m * 4) = 53 \/ Z.log2 (m * 4) = 54) by lia.
    destruct Hcase as [-> | ->].
    + exists (m * 2), (e + 1).
      replace (m * 4) with (m * 2 * 2 ^ (53 + 1 - 53)) by (simpl; lia).
      rewrite round_nearest_even_exact by lia.
      repeat split; try lia.
      replace (- e) with (Z.succ (- (e + 1))) in Hlt by lia.
      rewrite Z.pow_succ_r in Hlt by lia. lia.
    + exists m, (e + 2).
      replace (m * 4) with (m * 2 ^ (54 + 1 - 53)) by (simpl; lia).
      rewrite round_nearest_even_exact by lia.
      repeat split; try lia.
      replace (- e) with (Z.succ (Z.succ (- (e + 2)))) in Hlt by lia.
      rewrite !Z.pow_succ_r in Hlt by lia. lia.
Qed.

Lemma floor_mul_4 (r : double) :
  unit_interval r -> 0 <= Math_floor (mul r 4) < 4.
Proof.
  intros Hr. destruct (mul_4_below_4 r Hr) as (p & e & -> & Hp & He & Hlt).
  now apply floor_below.
Qed.

Lemma array_get_color (i : Z) :
  0 <= i < 4 ->
  exists c, array_get ["green"; "yellow"; "red"; "none"] i = Str c
            /\ In c badge_colors.
Proof.
  intros Hi.
  assert (Hcase : i = 0 \/ i = 1 \/ i = 2 \/ i = 3) by lia.
  unfold badge_colors.
  destruct Hcase as [-> | [-> | [-> | ->]]];
    eexists; (split; [reflexivity | simpl; tauto]).
Qed.

End Doubles.

Section RandomColor.

Lemma Math_random_fair (w : world) :
  fair (random w) ->
  unit_interval (fst (Math_random w)) /\ fair (random (snd (Math_random w))).
Proof.
  intros Hfair. unfold Math_random, next_double; simpl.
  split; [apply Hfair | exact Hfair].
Qed.

(** [randomBadgeColor] returns one of the four colors, whatever double of
    [0, 1) the random source gives. *)
Lemma randomBadgeColor_in_colors (w : world) :
  fair (random w) ->
  exists c, fst (randomBadgeColor w) = Str c /\ In c badge_colors.
Proof.
  intros Hfair. unfold randomBadgeColor, sync_bind, sync_ret.
  destruct (Math_random w) as [r w1] eqn:E; simpl.
  apply array_get_color, floor_mul_4.
  change r with (fst (r, w1)). rewrite <- E.
  now apply Math_random_fair.
Qed.

End RandomColor.

(** ** The badges *)

Section Badges.

Variable t : context.
Variable w : world.

(** The requests of [getBadges], and its result, follow the answer of the
    host to the read of the card. *)
Lemma getBadges_unsettled :
  (host_card t (trace w) = Pending ->
   fst (getBadges t w) = Pending)
  /\ (forall reason, host_card t (trace w) = Rejected reason ->
                     fst (getBadges t w) = Rejected reason).
Proof.
  unfold getBadges, get, card, and_then.
  split; [intros H | intros reason H]; rewrite H; reflexivity.
Qed.

Lemma getBadges_requests (data : string -> value) :
  host_card t (trace w) = Fulfilled data ->
  requests_of (getBadges t) w
    [ReadCard ["name"];
     ConsoleLog ("We just loaded the card name for fun: "
                 ++ to_string (data "name"))].
Proof.
  intros H. unfold requests_of, getBadges, get, card, and_then.
  rewrite H. simpl. now rewrite <- app_assoc.
Qed.

End Badges.

(** C3: whenever the host runs the function of a dynamic badge that
    [getBadges] returned, with a random source that gives doubles of
    [0, 1), the color of the badge it returns is one of green, yellow, red
    and none, and the refresh interval it declares is at least 10 seconds
    (it is 10). *)
Theorem dynamic_badge_color_and_refresh :
  forall (t : context) (w : world) (badges : list Badge.t)
         (b : Badge.t) (dynamic : sync Badge.t) (w' : world),
    fst (getBadges t w) = Fulfilled badges ->
    In b badges ->
    Badge.dynamic b = Some dynamic ->
    fair (random w') ->
    (exists c, Badge.color (fst (dynamic w')) = Some (Str c)
               /\ In c badge_colors)
    /\ (exists seconds, Badge.refresh (fst (dynamic w')) = Some seconds
                        /\ 10 <= seconds).
Proof.
  intros t w badges b dynamic w' Hrun Hin Hdyn Hfair.
  unfold getBadges, get, card, and_then in Hrun.
  destruct (host_card t (trace w)); simpl in Hrun; try discriminate.
  injection Hrun as <-.
  destruct Hin as [<- | [<- | [<- | [<- | []]]]]; simpl in Hdyn;
    try discriminate.
  injection Hdyn as <-.
  unfold sync_bind, sync_ret.
  destruct (Math_random w') as [r w1] eqn:E1.
  destruct (randomBadgeColor w1) as [c w2] eqn:E2. simpl.
  split.
  - assert (Hfair1 : fair (random w1)).
    { change w1 with (snd (r, w1)). rewrite <- E1.
      now apply Math_random_fair. }
    destruct (randomBadgeColor_in_colors w1 Hfair1) as (name & Hc & Hname).
    rewrite E2 in Hc. simpl in Hc. subst c. now exists name.
  - exists 10. split; [reflexivity | lia].
Qed.

Lemma demo_world_fair : fair (random demo_world).
Proof.
  intros n. unfold unit_interval; simpl. lia.
Qed.

Lemma dynamic_badge_color_and_refresh_witness :
  exists (badges : list Badge.t) (b : Badge.t) (dynamic : sync Badge.t),
    fst (getBadges demo_context demo_world) = Fulfilled badges
    /\ In b badges
    /\ Badge.dynamic b = Some dynamic
    /\ fair (random demo_world)
    /\ (exists c, Badge.color (fst (dynamic demo_world)) = Some (Str c)
                  /\ In c badge_colors)
    /\ (exists seconds, Badge.refresh (fst (dynamic demo_world)) = Some seconds
                        /\ 10 <= seconds).
Proof.
  do 3 eexists.
  split; [reflexivity |].
  split; [left; reflexivity |].
  split; [reflexivity |].
  split; [exact demo_world_fair |].
  eapply (dynamic_badge_color_and_refresh demo_context demo_world).
  - reflexivity.
  - left; reflexivity.
  - reflexivity.
  - exact demo_world_fair.
Defined.

(** C8: the badges [getBadges] resolves to do not depend on the card: for
    two hosts that answer the read of the card with any two names, the
    results are equal, the name only shows in the logged message, and the
    result is a sequence of four badges: a dynamic one, a static one, one
    whose callback opens the settings popup of height 184, and one with the
    URL 'https://trello.com/home' and the target 'Trello Landing Page'.
    card-badges and card-detail-badges both return what [getBadges]
    returns. *)
Theorem getBadges_ignores_card_name :
  forall (t1 t2 : context) (w1 w2 : world) (card1 card2 : string -> value),
    host_card t1 (trace w1) = Fulfilled card1 ->
    host_card t2 (trace w2) = Fulfilled card2 ->
    fst (getBadges t1 w1) = fst (getBadges t2 w2)
    /\ requests_of (getBadges t1) w1
         [ReadCard ["name"];
          ConsoleLog ("We just loaded the card name for fun: "
                      ++ to_string (card1 "name"))]
    /\ (exists dyn st cb ln,
           fst (getBadges t1 w1) = Fulfilled [dyn; st; cb; ln]
           /\ dynamic_badge dyn
           /\ static_badge st
           /\ callback_badge cb
           /\ (forall callback t' w',
                  Badge.callback cb = Some callback ->
                  exists view,
                    requests_of (callback t') w' [OpenPopup view]
                    /\ view_url view = Some "./settings.html"
                    /\ view_height view = Some 184)
           /\ link_badge ln
           /\ Badge.url ln = Some "https://trello.com/home"
           /\ Badge.target ln = Some "Trello Landing Page")
    /\ (forall (O : Type) (options : O),
           card_badges t1 options = getBadges t1
           /\ card_detail_badges t1 options = getBadges t1).
Proof.
  intros t1 t2 w1 w2 card1 card2 H1 H2.
  split; [| split; [| split]].
  - unfold getBadges, get, card, and_then. rewrite H1, H2. reflexivity.
  - now apply getBadges_requests.
  - unfold getBadges, get, card, and_then. rewrite H1. simpl.
    do 4 eexists. split; [reflexivity |].
    unfold dynamic_badge, static_badge, callback_badge, link_badge; simpl.
    repeat split; try congruence.
    intros callback t' w' Hcb. injection Hcb as <-.
    eexists. repeat split; reflexivity.
  - intros O options. split; reflexivity.
Qed.

Lemma getBadges_ignores_card_name_witness :
  host_card demo_context (trace demo_world) <>
  host_card renamed_context (trace demo_world)
  /\ fst (getBadges demo_context demo_world)
     = fst (getBadges renamed_context demo_world).
Proof.
  split.
  - simpl. intros H. injection H as H.
    apply (f_equal (fun f => f "name")) in H. discriminate.
  - exact (proj1 (getBadges_ignores_card_name
                    demo_context renamed_context demo_world demo_world
                    _ _ eq_refl eq_refl)).
Defined.

(** ** The popup of the card button *)

Section CardButtonPopup.

(** What selecting the item of a park code requests from the host. *)
Lemma parkItem_callback (parkCode : string) (t : context) (w : item_world) :
  let request := Attach ("http://www.nps.gov/" ++ parkCode ++ "/")
                        ("🏞 " ++ toUpperCase parkCode) in
  match host_ui t (trace w) request with
  | Fulfilled _ =>
      requests_of (PopupItem.callback (parkItem parkCode) t) w
                  [request; ClosePopup]
  | _ =>
      requests_of (PopupItem.callback (parkItem parkCode) t) w [request]
  end.
Proof.
  unfold requests_of, parkItem, and_then, attach, closePopup, request.
  cbn [PopupItem.callback].
  destruct (host_ui t (trace w) _); cbn [snd trace record];
    [reflexivity | | reflexivity].
  now rewrite <- app_assoc.
Qed.

Lemma cardButtonCallback_requests (t : context) (w : world) :
  requests_of (cardButtonCallback t) w
              [OpenPopup (Popup.view cardButtonOptions)].
Proof.
  reflexivity.
Qed.

(** The options [cardButtonCallback] hands to [t.popup]. *)
Lemma cardButtonCallback_hands_over (t : context) (w : world) :
  hands_over (cardButtonCallback t) w cardButtonOptions.
Proof.
  reflexivity.
Qed.

End CardButtonPopup.

(** C6: the popup [cardButtonCallback] asks the host to open has a catalog
    of exactly 7 items, one per code of acad, arch, badl, crla, grca, yell,
    yose in this order; the URL of an item is 'http://www.nps.gov/' + code +
    '/', its label is '🏞 ' and the code in upper case; the 7 labels are
    pairwise distinct and so are the 7 URLs. *)
Theorem card_button_catalog :
  exists items : list PopupItem.t,
    Popup.items cardButtonOptions = Some items
    /\ (forall t w,
           requests_of (cardButtonCallback t) w
                       [OpenPopup (Popup.view cardButtonOptions)])
    /\ List.length items = 7%nat
    /\ map PopupItem.url items =
       map (fun code => Some ("http://www.nps.gov/" ++ code ++ "/"))
           ["acad"; "arch"; "badl"; "crla"; "grca"; "yell"; "yose"]
    /\ map PopupItem.text items =
       ["🏞 ACAD"; "🏞 ARCH"; "🏞 BADL"; "🏞 CRLA"; "🏞 GRCA"; "🏞 YELL";
        "🏞 YOSE"]
    /\ NoDup (map PopupItem.text items)
    /\ NoDup (map PopupItem.url items).
Proof.
  exists (map parkItem parkCodes).
  split; [reflexivity |].
  split; [exact cardButtonCallback_requests |].
  split; [reflexivity |].
  split; [reflexivity |].
  split; [reflexivity |].
  split;
    repeat (apply NoDup_cons; [simpl; intuition discriminate |]);
    apply NoDup_nil.
Qed.

(** C9: the popup options [cardButtonCallback] hands to [t.popup] hold the
    catalog of 7 items, and selecting any item of it (the host runs the
    callback of the item) first asks the host to attach the URL of the item
    to the card under the label of the item; the popup is closed after
    that, and only when the attach request was fulfilled: when it is
    pending or rejected no close is requested.  In no case is the close
    requested before the attach. *)
Theorem catalog_item_attaches_then_closes :
  forall (t : context) (w : world),
    exists (options : Popup.t) (items : list PopupItem.t),
      hands_over (cardButtonCallback t) w options
      /\ Popup.items options = Some items
      /\ List.length items = 7%nat
      /\ forall (item : PopupItem.t) (t' : context) (w' : item_world),
           In item items ->
           exists url,
             PopupItem.url item = Some url
             /\ match host_ui t' (trace w')
                              (Attach url (PopupItem.text item)) with
                | Fulfilled _ =>
                    requests_of (PopupItem.callback item t') w'
                      [Attach url (PopupItem.text item); ClosePopup]
                | _ =>
                    requests_of (PopupItem.callback item t') w'
                      [Attach url (PopupItem.text item)]
                end.
Proof.
  intros t w.
  exists cardButtonOptions, (map parkItem parkCodes).
  split; [apply cardButtonCallback_hands_over |].
  split; [reflexivity |].
  split; [reflexivity |].
  intros item t' w' Hin.
  apply in_map_iff in Hin. destruct Hin as (parkCode & <- & _).
  eexists. split; [reflexivity |].
  apply parkItem_callback.
Qed.

Lemma catalog_item_attaches_then_closes_witness :
  exists (options : Popup.t) (items : list PopupItem.t) (item : PopupItem.t),
    hands_over (cardButtonCallback demo_context) demo_world options
    /\ Popup.items options = Some items
    /\ nth_error items 5 = Some item
    /\ requests_of (PopupItem.callback item demo_context) demo_item_world
         [Attach "http://www.nps.gov/yell/" "🏞 YELL"; ClosePopup].
Proof.
  destruct (catalog_item_attaches_then_closes demo_context demo_world)
    as (options & items & Hhand & Hitems & _ & Hall).
  assert (Hopt : options = cardButtonOptions).
  { unfold hands_over in Hhand. cbn in Hhand. now injection Hhand as <-. }
  subst options.
  assert (Hmap : items = map parkItem parkCodes)
    by (symmetry; injection Hitems as Heq; exact Heq).
  subst items.
  exists cardButtonOptions, (map parkItem parkCodes), (parkItem "yell").
  split; [reflexivity |].
  split; [reflexivity |].
  split; [reflexivity |].
  destruct (Hall (parkItem "yell") demo_context demo_item_world)
    as (url & Hurl & Hrun).
  - simpl. tauto.
  - injection Hurl as <-. exact Hrun.
Defined.


(** ** More on the arithmetic of the random payloads *)

Section Rounding.

(** Rounding to nearest never goes past the next integer above. *)
Lemma round_nearest_even_range (p s : Z) :
  0 <= p -> 1 <= s ->
  0 <= round_nearest_even p s
  /\ round_nearest_even p s * 2 ^ s < p + 2 ^ s.
Proof.
  intros Hp Hs. unfold round_nearest_even.
  assert (Hpow : 0 < 2 ^ s) by (apply Z.pow_pos_nonneg; lia).
  assert (Hhalf : 2 ^ s = 2 * 2 ^ (s - 1)).
  { replace s with (Z.succ (s - 1)) at 1 by lia.
    apply Z.pow_succ_r. lia. }
  rewrite Z.shiftr_div_pow2, !Z.shiftl_mul_pow2 by lia.
  pose proof (Z.div_mod p (2 ^ s)) as Hdm.
  pose proof (Z.mod_pos_bound p (2 ^ s) Hpow) as Hmod.
  assert (Hq : 0 <= p / 2 ^ s) by (apply Z.div_pos; lia).
  set (q := p / 2 ^ s) in *. set (T := 2 ^ s) in *.
  set (h := 2 ^ (s - 1)) in *.
  assert (Hr : p - q * T = p mod T) by lia.
  rewrite Hr.
  destruct (Z.ltb_spec (p mod T) (1 * h)).
  - split; nia.
  - destruct (Z.ltb_spec (1 * h) (p mod T)).
    + split; nia.
    + destruct (Z.even q); split; nia.
Qed.

(** [r * k] rounded, then rounded to an integer as [toFixed(0)] does, stays
    between 0 and [k] for a double [r] of [0, 1). *)
Lemma nearest_integer_mul (r : double) (k : Z) :
  unit_interval r -> 0 < k < 2 ^ 11 ->
  0 <= nearest_integer (mul r k) <= k.
Proof.
  destruct r as [m e]. unfold unit_interval, mul, round53; cbn [mant expo].
  intros [[Hm0 Hm53] [[He0 He1] Hlt]] Hk.
  assert (HT : 0 < 2 ^ (- e)) by (apply Z.pow_pos_nonneg; lia).
  destruct (Z.leb_spec (Z.log2 (m * k) + 1) 53) as [Hbits | Hbits].
  - unfold nearest_integer; cbn [mant expo].
    destruct (Z.leb_spec 0 e) as [Hz | Hneg].
    + assert (e = 0) by lia. subst e. simpl in Hlt.
      assert (m = 0) by lia. subst m. simpl. lia.
    + rewrite Z.shiftr_div_pow2 by lia.
      replace (1 - e) with (Z.succ (- e)) by lia.
      rewrite Z.pow_succ_r by lia.
      set (T := 2 ^ (- e)) in *.
      split.
      * apply Z.div_pos; nia.
      * apply Z.lt_succ_r, Z.div_lt_upper_bound; nia.
  - assert (Hpos : 0 < m * k).
    { destruct (Z.eq_dec m 0) as [-> | ]; [simpl in Hbits; lia | nia]. }
    pose proof (Z.log2_spec (m * k) Hpos) as [Hlo Hhi].
    set (L := Z.log2 (m * k)) in *.
    set (s := L + 1 - 53).
    assert (Hs : 1 <= s) by (unfold s; lia).
    (* the exponent stays negative *)
    assert (Hroom : s < - e).
    { assert (H1 : 2 ^ L < 2 ^ (11 - e)).
      { replace (11 - e) with (11 + - e) by lia.
        rewrite Z.pow_add_r by lia. nia. }
      apply Z.pow_lt_mono_r_iff in H1; unfold s; lia. }
    assert (Hsplit : 2 ^ (- e) = 2 ^ (- (e + s)) * 2 ^ s).
    { rewrite <- Z.pow_add_r by lia. f_equal. lia. }
    assert (HT' : 0 < 2 ^ (- (e + s))) by (apply Z.pow_pos_nonneg; lia).
    assert (HS : 0 < 2 ^ s) by (apply Z.pow_pos_nonneg; lia).
    destruct (round_nearest_even_range (m * k) s) as [Hq0 Hq1]; [lia | lia |].
    set (q := round_nearest_even (m * k) s) in *.
    unfold nearest_integer; cbn [mant expo].
    destruct (Z.leb_spec 0 (e + s)) as [Hz | Hneg]; [lia |].
    rewrite Z.shiftr_div_pow2 by lia.
    replace (1 - (e + s)) with (Z.succ (- (e + s))) by lia.
    rewrite Z.pow_succ_r by lia.
    set (T' := 2 ^ (- (e + s))) in *. set (S' := 2 ^ s) in *.
    assert (Hq : q <= k * T') by nia.
    split.
    + apply Z.div_pos; nia.
    + apply Z.lt_succ_r, Z.div_lt_upper_bound; nia.
Qed.

End Rounding.

(** ** More on attachment-sections *)

Section ClaimedEntries.

Variable t : context.

Lemma indexOf_test_prefix (s p : string) :
  (indexOf s p =? 0) = String.prefix p s.
Proof.
  apply Bool.eq_true_iff_eq.
  now rewrite indexOf_zero, prefix_begins_with.
Qed.

Lemma filter_twice {A : Type} (f : A -> bool) (l : list A) :
  filter f (filter f l) = filter f l.
Proof.
  induction l as [| a l IH]; simpl; [reflexivity |].
  destruct (f a) eqn:E; simpl; [rewrite E, IH |]; auto.
Qed.

(** The handler on entries of which at least one passes the test. *)
Lemma attachment_sections_some (options : EntriesOptions.t) (a : Attachment.t) :
  In a (filter (fun a => indexOf (Attachment.url a) "http://www.nps.gov/yell/"
                         =? 0)
               (EntriesOptions.entries options)) ->
  exists s,
    attachment_sections t options = [s]
    /\ Section.claimed s =
       filter (fun a => indexOf (Attachment.url a) "http://www.nps.gov/yell/"
                        =? 0)
              (EntriesOptions.entries options).
Proof.
  intros Hin. unfold attachment_sections.
  destruct (filter _ (EntriesOptions.entries options)) as [| b l] eqn:E;
    [destruct Hin |].
  replace (0 <? Z.of_nat (List.length (b :: l))) with true
    by (symmetry; apply Z.ltb_lt; simpl; lia).
  eexists. split; reflexivity.
Qed.

End ClaimedEntries.

(** X1: every entry whose URL begins with 'http://www.nps.gov/yell/' is
    claimed: the handler then returns exactly one section, and the entry is
    among its claimed attachments. *)
Theorem matching_entry_is_claimed :
  forall (t : context) (options : EntriesOptions.t) (a : Attachment.t),
    In a (EntriesOptions.entries options) ->
    begins_with "http://www.nps.gov/yell/" (Attachment.url a) ->
    exists s,
      attachment_sections t options = [s] /\ In a (Section.claimed s).
Proof.
  intros t options a Hin Hbegin.
  assert (Hclaimed :
            In a (filter (fun a => indexOf (Attachment.url a)
                                           "http://www.nps.gov/yell/" =? 0)
                         (EntriesOptions.entries options))).
  { apply filter_In. split; [assumption | now apply indexOf_zero]. }
  destruct (attachment_sections_some t options a Hclaimed) as (s & Hs & Hc).
  exists s. split; [assumption | now rewrite Hc].
Qed.

Lemma matching_entry_is_claimed_witness :
  exists s,
    attachment_sections demo_context
      {| EntriesOptions.entries := [acad2; yell2; yell1] |} = [s]
    /\ In yell2 (Section.claimed s).
Proof.
  apply matching_entry_is_claimed.
  - simpl. tauto.
  - exists "2". reflexivity.
Defined.

(** X2: the handler returns at most one section; a returned section is
    never empty, and its claimed attachments are the entries whose URL has
    the prefix, in the order of the entries and as often as they occur
    there. *)
Theorem claimed_keeps_order :
  forall (t : context) (options : EntriesOptions.t),
    (List.length (attachment_sections t options) <= 1)%nat
    /\ (forall s,
           In s (attachment_sections t options) ->
           Section.claimed s <> []
           /\ Section.claimed s =
              filter (fun a => String.prefix "http://www.nps.gov/yell/"
                                             (Attachment.url a))
                     (EntriesOptions.entries options)).
Proof.
  intros t options. split.
  - unfold attachment_sections.
    destruct (0 <? Z.of_nat (List.length _)); simpl; lia.
  - intros s Hs. split.
    + unfold attachment_sections in Hs.
      destruct (filter _ (EntriesOptions.entries options)) as [| b l] eqn:E;
        simpl in Hs; [tauto |].
      destruct Hs as [<- | []]. simpl. discriminate.
    + rewrite (section_claimed t options s Hs).
      apply filter_ext. intros a. apply indexOf_test_prefix.
Qed.

(** X3: claiming is idempotent: the handler called on the claimed
    attachments of a section it returned returns that same section. *)
Theorem claiming_is_idempotent :
  forall (t : context) (options : EntriesOptions.t) (s : Section.t),
    In s (attachment_sections t options) ->
    attachment_sections t {| EntriesOptions.entries := Section.claimed s |}
    = [s].
Proof.
  intros t options s Hs.
  pose proof (section_claimed t options s Hs) as Hc.
  unfold attachment_sections in *.
  destruct (filter _ (EntriesOptions.entries options)) as [| b l] eqn:E;
    simpl in Hs; [tauto |].
  destruct Hs as [<- | []].
  cbn [EntriesOptions.entries Section.claimed].
  rewrite <- E, filter_twice, E.
  reflexivity.
Qed.

Lemma claiming_is_idempotent_witness :
  exists s,
    In s (attachment_sections demo_context
            {| EntriesOptions.entries := [acad2; yell2; yell1] |})
    /\ attachment_sections demo_context
         {| EntriesOptions.entries := Section.claimed s |} = [s].
Proof.
  eexists. split.
  - left. reflexivity.
  - apply (claiming_is_idempotent demo_context
             {| EntriesOptions.entries := [acad2; yell2; yell1] |}).
    left. reflexivity.
Defined.

(** ** More on the random badge *)

Section Quartiles.

(** [r * 4] is exact: the product [p * 2 ^ e'] is four times [r]. *)
Lemma mul_4_exact (r : double) :
  unit_interval r ->
  exists p e' c,
    mul r 4 = {| mant := p; expo := e' |}
    /\ 0 <= p /\ e' <= 0 /\ 0 < c
    /\ 4 * mant r = p * c
    /\ 2 ^ (- expo r) = 2 ^ (- e') * c.
Proof.
  destruct r as [m e]. unfold unit_interval, mul, round53; cbn [mant expo].
  intros [[Hm0 Hm53] [[He0 He1] Hlt]].
  destruct (Z.leb_spec (Z.log2 (m * 4) + 1) 53) as [Hbits | Hbits].
  - exists (m * 4), e, 1. repeat split; lia.
  - assert (Hpos : 0 < m * 4).
    { destruct (Z.eq_dec m 0) as [-> | ]; [simpl in Hbits |]; lia. }
    assert (Hhi : Z.log2 (m * 4) < 55).
    { apply Z.log2_lt_pow2; [lia |]. change (2 ^ 55) with (2 ^ 53 * 4). lia. }
    assert (Hlo : 2 ^ 53 <= m * 4).
    { transitivity (2 ^ Z.log2 (m * 4)).
      - apply Z.pow_le_mono_r; lia.
      - apply Z.log2_spec. lia. }
    assert (He : e <= -52).
    { assert (H51 : 2 ^ 51 < 2 ^ (- e)).
      { change (2 ^ 53) with (2 ^ 51 * 4) in Hlo. lia. }
      apply Z.pow_lt_mono_r_iff in H51; lia. }
    assert (Hcase : Z.log2 (m * 4) = 53 \/ Z.log2 (m * 4) = 54) by lia.
    destruct Hcase as [-> | ->].
    + exists (m * 2), (e + 1), 2.
      replace (m * 4) with (m * 2 * 2 ^ (53 + 1 - 53)) by (simpl; lia).
      rewrite round_nearest_even_exact by lia.
      repeat split; try lia.
      replace (- e) with (Z.succ (- (e + 1))) by lia.
      rewrite Z.pow_succ_r by lia. lia.
    + exists m, (e + 2), 4.
      replace (m * 4) with (m * 2 ^ (54 + 1 - 53)) by (simpl; lia).
      rewrite round_nearest_even_exact by lia.
      repeat split; try lia.
      replace (- e) with (Z.succ (Z.succ (- (e + 2)))) by lia.
      rewrite !Z.pow_succ_r by lia. lia.
Qed.

(** [Math.floor(r * 4)] is the quarter of [0, 1) that [r] lies in. *)
Lemma floor_mul_4_quartile (r : double) :
  unit_interval r ->
  Math_floor (mul r 4) * 2 ^ (- expo r) <= 4 * mant r
  /\ 4 * mant r < (Math_floor (mul r 4) + 1) * 2 ^ (- expo r).
Proof.
  intros Hr.
  destruct (mul_4_exact r Hr) as (p & e' & c & -> & Hp & He & Hc & Hv & HT).
  unfold Math_floor; cbn [mant expo].
  assert (Hshift : Z.shiftl p e' = p / 2 ^ (- e')).
  { rewrite <- Z.shiftr_opp_r, Z.shiftr_div_pow2 by lia. reflexivity. }
  assert (Hpow : 0 < 2 ^ (- e')) by (apply Z.pow_pos_nonneg; lia).
  pose proof (Z.div_mod p (2 ^ (- e'))) as Hdm.
  pose proof (Z.mod_pos_bound p (2 ^ (- e')) Hpow) as Hmod.
  rewrite Hshift, Hv, HT.
  set (q := p / 2 ^ (- e')) in *. set (T := 2 ^ (- e')) in *.
  split; nia.
Qed.

Lemma Math_random_takes_one {H : Type} (w : world_of H) :
  Math_random w =
  (draws (random w) (taken (random w)),
   {| trace := trace w;
      random := {| draws := draws (random w);
                   taken := S (taken (random w)) |};
      handed := handed w |}).
Proof.
  reflexivity.
Qed.

End Quartiles.

(** X4: [randomBadgeColor] takes exactly one double [r] from the random
    source, asks nothing of the host, and returns the color whose index is
    the quarter of [0, 1) in which [r] lies: green below 1/4, yellow below
    1/2, red below 3/4, none from there on. *)
Theorem random_color_is_the_quartile :
  forall w : world,
    fair (random w) ->
    exists k,
      0 <= k < 4
      /\ k * 2 ^ (- expo (draws (random w) (taken (random w))))
         <= 4 * mant (draws (random w) (taken (random w)))
      /\ 4 * mant (draws (random w) (taken (random w)))
         < (k + 1) * 2 ^ (- expo (draws (random w) (taken (random w))))
      /\ fst (randomBadgeColor w) =
         array_get ["green"; "yellow"; "red"; "none"] k
      /\ draws_taken randomBadgeColor w 1
      /\ requests_of randomBadgeColor w [].
Proof.
  intros w Hfair.
  set (r := draws (random w) (taken (random w))).
  assert (Hr : unit_interval r) by apply Hfair.
  exists (Math_floor (mul r 4)).
  split; [now apply floor_mul_4 |].
  split; [now apply floor_mul_4_quartile |].
  split; [now apply floor_mul_4_quartile |].
  unfold draws_taken, requests_of, randomBadgeColor, sync_bind, sync_ret.
  rewrite Math_random_takes_one. cbn [fst snd trace random].
  split; [reflexivity |].
  split.
  - f_equal. lia.
  - now rewrite app_nil_r.
Qed.

Lemma random_color_is_the_quartile_witness :
  fst (randomBadgeColor demo_world) = Str "none".
Proof.
  destruct (random_color_is_the_quartile demo_world demo_world_fair)
    as (k & Hk & Hlow & Hhigh & Hcolor & _).
  simpl in Hlow, Hhigh.
  assert (Hk3 : k = 3) by lia.
  rewrite Hcolor, Hk3. reflexivity.
Defined.

(** X5: a run of the function of the dynamic badge, on a random source of
    doubles of [0, 1), takes exactly two doubles, asks nothing of the host,
    and returns a badge that is not dynamic itself, titled 'Detail Badge',
    with the icon, whose text is 'Dynamic ' followed by the decimal of an
    integer between 0 and 100, both included. *)
Theorem dynamic_badge_payload :
  forall (t : context) (w : world) (badges : list Badge.t)
         (b : Badge.t) (dynamic : sync Badge.t) (w' : world),
    fst (getBadges t w) = Fulfilled badges ->
    In b badges ->
    Badge.dynamic b = Some dynamic ->
    fair (random w') ->
    (exists n, 0 <= n <= 100
               /\ Badge.text (fst (dynamic w'))
                  = Some ("Dynamic " ++ string_of_Z n))
    /\ Badge.title (fst (dynamic w')) = Some "Detail Badge"
    /\ Badge.icon (fst (dynamic w')) = Some HYPERDEV_ICON
    /\ Badge.dynamic (fst (dynamic w')) = None
    /\ draws_taken dynamic w' 2
    /\ requests_of dynamic w' [].
Proof.
  intros t w badges b dynamic w' Hrun Hin Hdyn Hfair.
  unfold getBadges, get, card, and_then in Hrun.
  destruct (host_card t (trace w)); simpl in Hrun; try discriminate.
  injection Hrun as <-.
  destruct Hin as [<- | [<- | [<- | [<- | []]]]]; simpl in Hdyn;
    try discriminate.
  injection Hdyn as <-.
  unfold draws_taken, requests_of, randomBadgeColor, sync_bind, sync_ret.
  rewrite !Math_random_takes_one. cbn [fst snd trace random draws taken].
  cbn [Badge.text Badge.title Badge.icon Badge.dynamic].
  split.
  - exists (nearest_integer (mul (draws (random w') (taken (random w'))) 100)).
    split; [| reflexivity].
    apply nearest_integer_mul; [apply Hfair | simpl; lia].
  - repeat split.
    + f_equal. lia.
    + now rewrite app_nil_r.
Qed.

Lemma dynamic_badge_payload_witness :
  exists (badges : list Badge.t) (b : Badge.t) (dynamic : sync Badge.t),
    fst (getBadges demo_context demo_world) = Fulfilled badges
    /\ In b badges
    /\ Badge.dynamic b = Some dynamic
    /\ Badge.title (fst (dynamic demo_world)) = Some "Detail Badge"
    /\ draws_taken dynamic demo_world 2.
Proof.
  do 3 eexists.
  split; [reflexivity |].
  split; [left; reflexivity |].
  split; [reflexivity |].
  pose proof (dynamic_badge_payload demo_context demo_world _ _ _ demo_world
                eq_refl (or_introl eq_refl) eq_refl demo_world_fair) as H.
  split; apply H.
Defined.

(** ** The items of the board-button popup *)

Section ThenClose.

Context {H : Type}.
Variable t : context.

(** The shape the three kinds of item callback share:
    [request.then(function(){ return t.closePopup(); })]. *)
Lemma request_then_close (a : action) (w : world_of H) :
  then_closes (request t a >>= fun _ => closePopup t) t w a.
Proof.
  unfold then_closes, requests_of, and_then, closePopup, request.
  destruct (host_ui t (trace w) a) eqn:E; cbn [fst snd trace record];
    try (split; reflexivity).
  split; [now rewrite <- app_assoc | reflexivity].
Qed.

(** A draw before the request changes nothing of what is asked. *)
Lemma then_closes_after_draw (m : double -> promised H unit)
    (a : double -> action) (w : world_of H) :
  (forall r w1, then_closes (m r) t w1 (a r)) ->
  then_closes (after Math_random m) t w
              (a (draws (random w) (taken (random w)))).
Proof.
  intros Hm.
  specialize (Hm (draws (random w) (taken (random w)))
                 {| trace := trace w;
                    random := {| draws := draws (random w);
                                 taken := S (taken (random w)) |};
                    handed := handed w |}).
  unfold then_closes, requests_of, after in *.
  rewrite Math_random_takes_one. cbn [trace] in Hm. exact Hm.
Qed.

Lemma request_then_close_draws (a : action) (w : world_of H) :
  random (snd ((request t a >>= fun _ => closePopup t) w)) = random w.
Proof.
  unfold and_then, closePopup, request.
  destruct (host_ui t (trace w) a); reflexivity.
Qed.

End ThenClose.

(** X6: the first item of the options [boardButtonCallback] hands to
    [t.popup] is 'Open Overlay'; when the host runs its callback, it takes
    one double of the random source, asks the host to open './overlay.html'
    as an overlay with the argument rand, the decimal of an integer between
    0 and 100, and asks to close the popup after that and only when the
    overlay request was fulfilled; a pending or rejected overlay request is
    the result of the callback, with the reason of the rejection. *)
Theorem overlay_item_opens_then_closes :
  forall (t : context) (w : world),
    exists (options : Popup.t) (item : PopupItem.t) (rest : list PopupItem.t),
      hands_over (boardButtonCallback t) w options
      /\ Popup.items options = Some (item :: rest)
      /\ PopupItem.text item = "Open Overlay"
      /\ forall (t' : context) (w' : item_world),
           fair (random w') ->
           exists n,
             0 <= n <= 100
             /\ then_closes (PopupItem.callback item t') t' w'
                  (OpenOverlay "./overlay.html" [("rand", string_of_Z n)])
             /\ draws_taken (PopupItem.callback item t') w' 1.
Proof.
  intros t w. unfold hands_over, boardButtonCallback, popup.
  cbn [snd handed].
  do 3 eexists.
  split; [reflexivity |].
  split; [reflexivity |].
  split; [reflexivity |].
  intros t' w' Hfair. cbn [PopupItem.callback].
  exists (nearest_integer (mul (draws (random w') (taken (random w'))) 100)).
  split; [apply nearest_integer_mul; [apply Hfair | simpl; lia] |].
  split.
  - apply (then_closes_after_draw t'
             (fun r => overlay t' "./overlay.html"
                               [("rand", toFixed0 (mul r 100))]
                       >>= fun _ => closePopup t')
             (fun r => OpenOverlay "./overlay.html"
                                   [("rand", toFixed0 (mul r 100))])).
    intros r w1. apply request_then_close.
  - unfold draws_taken, after, overlay.
    rewrite Math_random_takes_one.
    rewrite request_then_close_draws. cbn [random]. f_equal. lia.
Qed.

(** X7: the second and last item of the options [boardButtonCallback]
    hands to [t.popup] is 'Open Board Bar'; when the host runs its callback,
    it asks the host to open './board-bar.html' as a board bar of height
    200, and asks to close the popup after that and only when the board-bar
    request was fulfilled; otherwise the callback ends as that request did.
    It takes no double of the random source. *)
Theorem board_bar_item_opens_then_closes :
  forall (t : context) (w : world),
    exists (options : Popup.t) (first item : PopupItem.t),
      hands_over (boardButtonCallback t) w options
      /\ Popup.items options = Some [first; item]
      /\ PopupItem.text item = "Open Board Bar"
      /\ forall (t' : context) (w' : item_world),
           then_closes (PopupItem.callback item t') t' w'
                       (OpenBoardBar "./board-bar.html" 200)
           /\ draws_taken (PopupItem.callback item t') w' 0.
Proof.
  intros t w. unfold hands_over, boardButtonCallback, popup.
  cbn [snd handed].
  do 3 eexists.
  split; [reflexivity |].
  split; [reflexivity |].
  split; [reflexivity |].
  intros t' w'. cbn [PopupItem.callback]. split.
  - apply request_then_close.
  - unfold draws_taken, boardBar.
    rewrite request_then_close_draws.
    destruct (random w') as [d n]. cbn [draws taken]. f_equal. lia.
Qed.

(** ** Handlers and callbacks that open a popup *)

Section PopupOpeners.

Variable t : context.
Variable w : world.

Lemma no_draw (g : rng) :
  g = {| draws := draws g; taken := (taken g + 0)%nat |}.
Proof.
  destruct g as [d n]. cbn [draws taken]. f_equal. lia.
Qed.

(** [t.popup(options)] is one request, settled by the host. *)
Lemma popup_only_requests (options : Popup.t) :
  only_requests (popup t options) t w (OpenPopup (Popup.view options))
  /\ draws_taken (popup t options) w 0.
Proof.
  unfold only_requests, requests_of, draws_taken, popup.
  cbn [fst snd trace random].
  repeat split. apply no_draw.
Qed.

End PopupOpeners.

(** X8: show-settings, show-authorization and the callback of a button that
    board-buttons or card-buttons returned each make exactly one request to
    the host, the opening of their popup, take nothing from the random
    source, and settle as the host settles that request: a rejection is
    passed on with its reason.  The popup of the board button lists 'Open
    Overlay' and 'Open Board Bar', without URL and without search; the
    popup of the card button is the searchable catalog of the parks. *)
Theorem popup_openers_make_one_request :
  forall (O : Type) (t : context) (options : O) (w : world)
         (b : Button.t) (callback : context -> async unit),
    Button.callback b = Some callback ->
    (only_requests (show_settings t options) t w
       (OpenPopup {| view_title := "Settings";
                     view_url := Some "./settings.html";
                     view_height := Some 184;
                     view_items := None;
                     view_search := None |})
     /\ draws_taken (show_settings t options) w 0)
    /\ (only_requests (show_authorization t options) t w
          (OpenPopup {| view_title := "My Auth Popup";
                        view_url := Some "./authorize.html";
                        view_height := Some 140;
                        view_items := None;
                        view_search := None |})
        /\ draws_taken (show_authorization t options) w 0)
    /\ (In b (board_buttons t options) ->
        only_requests (callback t) t w
          (OpenPopup {| view_title := "Popup List Example";
                        view_url := None;
                        view_height := None;
                        view_items := Some [("Open Overlay", None);
                                            ("Open Board Bar", None)];
                        view_search := None |})
        /\ draws_taken (callback t) w 0)
    /\ (In b (card_buttons t options) ->
        only_requests (callback t) t w
          (OpenPopup (Popup.view cardButtonOptions))
        /\ view_search (Popup.view cardButtonOptions)
           = Some (5, "Search National Parks", "No parks found")
        /\ draws_taken (callback t) w 0).
Proof.
  intros O t options w b callback Hcb.
  split; [apply (popup_only_requests t w) |].
  split; [apply (popup_only_requests t w) |].
  split.
  - intros [<- | [<- | []]]; simpl in Hcb; [| discriminate].
    injection Hcb as <-.
    unfold boardButtonCallback.
    apply (popup_only_requests t w).
  - intros [<- | [<- | []]]; simpl in Hcb; [| discriminate].
    injection Hcb as <-.
    destruct (popup_only_requests t w cardButtonOptions) as [H1 H2].
    repeat split; solve [apply H1 | apply H2].
Qed.

Lemma popup_openers_make_one_request_witness :
  fst (boardButtonCallback refusing_context demo_world)
  = Rejected "request refused".
Proof.
  destruct (popup_openers_make_one_request
              unit refusing_context tt demo_world
              {| Button.icon := WHITE_ICON;
                 Button.text := "Popup";
                 Button.callback := Some boardButtonCallback;
                 Button.url := None;
                 Button.target := None |}
              boardButtonCallback eq_refl)
    as (_ & _ & Hboard & _).
  destruct (Hboard (or_introl eq_refl)) as [[_ Hsettle] _].
  exact Hsettle.
Defined.

(** ** getBadges when the card cannot be read *)

(** X9: when the host leaves the read of the card pending, or rejects it,
    [getBadges] ends the same way, with the reason of the rejection; its
    only request is the read of the name of the card: nothing is logged and
    no badge is returned.  Whatever the host answers, [getBadges] takes
    nothing from the random source. *)
Theorem getBadges_passes_failure_on :
  forall (t : context) (w : world),
    match host_card t (trace w) with
    | Fulfilled _ => exists badges, fst (getBadges t w) = Fulfilled badges
    | Pending =>
        fst (getBadges t w) = Pending
        /\ requests_of (getBadges t) w [ReadCard ["name"]]
    | Rejected reason =>
        fst (getBadges t w) = Rejected reason
        /\ requests_of (getBadges t) w [ReadCard ["name"]]
    end
    /\ draws_taken (getBadges t) w 0.
Proof.
  intros t w.
  unfold draws_taken, requests_of, getBadges, get, card, and_then.
  destruct (host_card t (trace w));
    cbn [fst snd trace random record console_log resolved];
    split; try (split; reflexivity); try apply no_draw.
  eexists. reflexivity.
Qed.

(** ** Decorated texts determine the URL *)

Section Append.

Lemma append_length (a b : string) :
  String.length (a ++ b) = (String.length a + String.length b)%nat.
Proof.
  induction a as [| c a IH]; simpl; [reflexivity | now rewrite IH].
Qed.

Lemma append_cancel_l (p a b : string) :
  p ++ a = p ++ b -> a = b.
Proof.
  induction p as [| c p IH]; simpl; intros H; [assumption |].
  apply IH. now inversion H.
Qed.

Lemma append_cancel_r (s a b : string) :
  a ++ s = b ++ s -> a = b.
Proof.
  revert b. induction a as [| c a IH]; intros [| d b] H; simpl in H.
  - reflexivity.
  - apply (f_equal String.length) in H. simpl in H.
    rewrite append_length in H. lia.
  - apply (f_equal String.length) in H. simpl in H.
    rewrite append_length in H. lia.
  - inversion H. f_equal. now apply IH.
Qed.

Lemma decoration_injective (p s a b : string) :
  p ++ a ++ s = p ++ b ++ s -> a = b.
Proof.
  intros H. apply append_cancel_l in H. now apply append_cancel_r in H.
Qed.

End Append.

(** X10: the decorations lose nothing: two URLs that format-url renders
    with the same text, or attachment-thumbnail with the same title, or
    card-from-url with the same card name, are the same URL. *)
Theorem decorated_texts_determine_url :
  forall (t : context) (o1 o2 : UrlOptions.t),
    (forall f1 f2,
        format_url t o1 = Return f1 -> format_url t o2 = Return f2 ->
        FormattedUrl.text f1 = FormattedUrl.text f2 ->
        UrlOptions.url o1 = UrlOptions.url o2)
    /\ (forall d1 d2,
           attachment_thumbnail t o1 = Return d1 ->
           attachment_thumbnail t o2 = Return d2 ->
           Thumbnail.title d1 = Thumbnail.title d2 ->
           UrlOptions.url o1 = UrlOptions.url o2)
    /\ (forall p1 p2 c1 c2,
           card_from_url t o1 = Return p1 -> card_from_url t o2 = Return p2 ->
           state p1 = Fulfilled c1 -> state p2 = Fulfilled c2 ->
           CardStub.name c1 = CardStub.name c2 ->
           UrlOptions.url o1 = UrlOptions.url o2).
Proof.
  intros t o1 o2. split; [| split].
  - intros f1 f2 H1 H2 Heq.
    injection H1 as <-. injection H2 as <-.
    exact (decoration_injective "👉 " " 👈" _ _ Heq).
  - intros d1 d2 H1 H2 Heq.
    injection H1 as <-. injection H2 as <-.
    exact (decoration_injective "👉 " " 👈" _ _ Heq).
  - intros p1 p2 c1 c2 H1 H2 S1 S2 Heq.
    injection H1 as <-. injection H2 as <-.
    injection S1 as <-. injection S2 as <-.
    exact (decoration_injective "💻 " " 🤔" _ _ Heq).
Qed.

(** ** The item of a park code *)

Section ParkCodes.

Lemma upper_ascii_lowercase_injective (a b : ascii) :
  (97 <=? nat_of_ascii a)%nat && (nat_of_ascii a <=? 122)%nat = true ->
  (97 <=? nat_of_ascii b)%nat && (nat_of_ascii b <=? 122)%nat = true ->
  upper_ascii a = upper_ascii b -> a = b.
Proof.
  intros Ha Hb. unfold upper_ascii. cbv zeta. rewrite Ha, Hb.
  apply andb_prop in Ha, Hb. destruct Ha as [Ha1 Ha2], Hb as [Hb1 Hb2].
  apply Nat.leb_le in Ha1, Ha2, Hb1, Hb2.
  intros Heq. apply (f_equal nat_of_ascii) in Heq.
  rewrite !nat_ascii_embedding in Heq by lia.
  rewrite <- (ascii_nat_embedding a), <- (ascii_nat_embedding b).
  f_equal. lia.
Qed.

Lemma toUpperCase_lowercase_injective (c1 c2 : string) :
  lowercase_only c1 = true -> lowercase_only c2 = true ->
  toUpperCase c1 = toUpperCase c2 -> c1 = c2.
Proof.
  revert c2. induction c1 as [| a c1 IH]; intros [| b c2] H1 H2 Heq;
    simpl in *; try discriminate; [reflexivity |].
  apply andb_prop in H1, H2. destruct H1 as [Ha H1], H2 as [Hb H2].
  injection Heq as Hab Hrest.
  f_equal.
  - now apply upper_ascii_lowercase_injective.
  - now apply IH.
Qed.

End ParkCodes.

(** X11: for any two codes made of the letters a to z, as the park codes
    are, the items [cardButtonCallback] builds for them have the same URL
    only when the codes are equal, and the same label only when the codes
    are equal: distinct codes never collide in the catalog. *)
Theorem park_items_of_distinct_codes :
  forall c1 c2 : string,
    lowercase_only c1 = true ->
    lowercase_only c2 = true ->
    (PopupItem.url (parkItem c1) = PopupItem.url (parkItem c2) -> c1 = c2)
    /\ (PopupItem.text (parkItem c1) = PopupItem.text (parkItem c2)
        -> c1 = c2).
Proof.
  intros c1 c2 H1 H2. unfold parkItem; cbn [PopupItem.url PopupItem.text].
  split.
  - intros H.
    assert (H' : "http://www.nps.gov/" ++ c1 ++ "/"
                 = "http://www.nps.gov/" ++ c2 ++ "/") by congruence.
    exact (decoration_injective _ _ _ _ H').
  - intros H.
    apply toUpperCase_lowercase_injective; try assumption.
    exact (append_cancel_l "🏞 " _ _ H).
Qed.

Lemma park_items_of_distinct_codes_witness :
  PopupItem.text (parkItem "yell") <> PopupItem.text (parkItem "yose").
Proof.
  intros H.
  apply (park_items_of_distinct_codes "yell" "yose" eq_refl eq_refl) in H.
  discriminate H.
Defined.

(** X12: for a park code of ASCII characters, selecting its item asks the
    host to attach the URL of the park under its label and, after that and
    only when the attach was fulfilled, to close the popup; when the attach
    stays pending or is rejected the callback ends the same way, with the
    reason of the rejection, and the popup stays open.  The callback takes
    nothing from the random source. *)
Theorem park_item_attach_settles :
  forall (parkCode : string) (t : context) (w : item_world),
    ascii_only parkCode = true ->
    then_closes (PopupItem.callback (parkItem parkCode) t) t w
                (Attach ("http://www.nps.gov/" ++ parkCode ++ "/")
                        ("🏞 " ++ toUpperCase parkCode))
    /\ draws_taken (PopupItem.callback (parkItem parkCode) t) w 0.
Proof.
  intros parkCode t w _. split.
  - apply request_then_close.
  - unfold draws_taken, parkItem, attach. cbn [PopupItem.callback].
    rewrite request_then_close_draws. apply no_draw.
Qed.

Lemma park_item_attach_settles_witness :
  requests_of (PopupItem.callback (parkItem "grca") refusing_context)
              demo_item_world
              [Attach "http://www.nps.gov/grca/" "🏞 GRCA"]
  /\ fst (PopupItem.callback (parkItem "grca") refusing_context
            demo_item_world)
     = Rejected "request refused".
Proof.
  exact (proj1 (park_item_attach_settles "grca" refusing_context
                  demo_item_world eq_refl)).
Defined.

(** ** getBadges on a card without a name *)

(** X13: when the object the host resolves the read of the card with has no
    name, [getBadges] still succeeds: it logs the message with the text
    'undefined' in the place of the name and resolves to its four badges. *)
Theorem getBadges_without_name :
  forall (t : context) (w : world) (data : string -> value),
    host_card t (trace w) = Fulfilled data ->
    data "name" = Undefined ->
    requests_of (getBadges t) w
      [ReadCard ["name"];
       ConsoleLog "We just loaded the card name for fun: undefined"]
    /\ exists badges,
         fst (getBadges t w) = Fulfilled badges
         /\ List.length badges = 4%nat.
Proof.
  intros t w data Hcard Hname. split.
  - pose proof (getBadges_requests t w data Hcard) as H.
    rewrite Hname in H. exact H.
  - unfold getBadges, get, card, and_then. rewrite Hcard.
    eexists. split; reflexivity.
Qed.

Lemma getBadges_without_name_witness :
  requests_of
    (getBadges {| host_card := fun _ => Fulfilled (fun _ => Undefined);
                  host_ui := host_ui demo_context;
                  host_signUrl := host_signUrl demo_context |})
    demo_world
    [ReadCard ["name"];
     ConsoleLog "We just loaded the card name for fun: undefined"].
Proof.
  exact (proj1 (getBadges_without_name
                  {| host_card := fun _ => Fulfilled (fun _ => Undefined);
                     host_ui := host_ui demo_context;
                     host_signUrl := host_signUrl demo_context |}
                  demo_world (fun _ => Undefined) eq_refl eq_refl)).
Defined.
